(** * esp-relay: the configuration header [secrets.h]

    The header declares six string constants of the relay firmware: two
    [const String] objects (the administrator's phone number and the secret
    command) and four [#define] macros holding string literals (station-mode
    and access-point credentials).  This development embeds the header and
    proves the properties its specification states about the constants. *)

From Stdlib Require Import String Ascii List Bool Arith Lia.
Import ListNotations.
Open Scope string_scope.

Set Implicit Arguments.

(** ** C strings and the Arduino [String] class

    A string literal denotes an array of characters; read as a C string it
    ends at its first NUL character.  [String(const char *cstr)] copies
    [strlen(cstr)] characters, and the macros are consumed as [const char *],
    so both kinds of constant observe exactly that prefix. *)
Module WString.

Definition NUL : ascii := Ascii.zero.

(** The characters [strlen] counts: those before the first NUL. *)
Fixpoint c_str (lit : string) : string :=
  match lit with
  | EmptyString => EmptyString
  | String ch rest =>
      if Ascii.eqb ch NUL then EmptyString else String ch (c_str rest)
  end.

(** [String::String(const char *cstr)]: [copy(cstr, strlen(cstr))]. *)
Definition of_cstr (lit : string) : string := c_str lit.

(** [String::equals]: same length and [strcmp(...) == 0]. *)
Definition equals (a b : string) : bool :=
  Nat.eqb (String.length a) (String.length b) && String.eqb a b.

Fixpoint nul_free (s : string) : bool :=
  match s with
  | EmptyString => true
  | String ch rest => negb (Ascii.eqb ch NUL) && nul_free rest
  end.

(** A C string value: a sequence of characters none of which is NUL. *)
Record cstring : Type := CStr {
  chars : string;
  chars_nul_free : nul_free chars = true
}.

End WString.

(** ** The declarations of [secrets.h] *)

Definition ADMIN_PHONE : string := WString.of_cstr "+38160123456789".
Definition SECRET_COMMAND : string := WString.of_cstr "openrelay".

Definition LOCAL_SSID : string := WString.c_str "MyWiFiNetwork".
Definition LOCAL_PASS : string := WString.c_str "password1234".

Definition AP_SSID : string := WString.c_str "ESP8266-Access-Point".
Definition AP_PASS : string := WString.c_str "123456789".

(** The six configuration values, under the names the specification uses. *)
Inductive constant : Type :=
  | AdminPhone
  | SecretCommand
  | LocalSsid
  | LocalPass
  | ApSsid
  | ApPass.

Definition constant_eq_dec (a b : constant) : {a = b} + {a <> b}.
Proof. decide equality. Defined.

Definition all_constants : list constant :=
  [AdminPhone; SecretCommand; LocalSsid; LocalPass; ApSsid; ApPass].

(** How a name is introduced: as a global [String] object, [const] or not,
    or as a macro that expands to a string literal. *)
Inductive declaration : Type :=
  | GlobalString (is_const : bool)
  | MacroLiteral.

Definition declared (c : constant) : declaration :=
  match c with
  | AdminPhone => GlobalString true
  | SecretCommand => GlobalString true
  | LocalSsid => MacroLiteral
  | LocalPass => MacroLiteral
  | ApSsid => MacroLiteral
  | ApPass => MacroLiteral
  end.

(** The value a consumer observes under each name. *)
Definition value (c : constant) : string :=
  match c with
  | AdminPhone => ADMIN_PHONE
  | SecretCommand => SECRET_COMMAND
  | LocalSsid => LOCAL_SSID
  | LocalPass => LOCAL_PASS
  | ApSsid => AP_SSID
  | ApPass => AP_PASS
  end.

(** The header as a template: the literal written after each name. *)
Definition literals : Type := constant -> string.

Definition secrets_h : literals := fun c =>
  match c with
  | AdminPhone => "+38160123456789"
  | SecretCommand => "openrelay"
  | LocalSsid => "MyWiFiNetwork"
  | LocalPass => "password1234"
  | ApSsid => "ESP8266-Access-Point"
  | ApPass => "123456789"
  end.

(** ** Run-time view: the store, start-up and the consumers' accesses *)

(** What each name denotes at run time; [None] is a [String] object whose
    constructor has not run yet. *)
Definition store : Type := constant -> option string.

Definition update (st : store) (c : constant) (v : string) : store :=
  fun c' => if constant_eq_dec c c' then Some v else st c'.

Inductive error : Type :=
  | Uninitialized (c : constant).

Inductive result (A : Type) : Type :=
  | Ok (a : A)
  | Err (e : error).

Arguments Err {A} e.

(** Computations over the store that may stop with an error. *)
Definition M (A : Type) : Type := store -> result (A * store).

Definition ret {A : Type} (a : A) : M A := fun st => Ok (a, st).

Definition bind {A B : Type} (m : M A) (k : A -> M B) : M B :=
  fun st =>
    match m st with
    | Ok (a, st') => k a st'
    | Err e => Err e
    end.

Notation "x <- m ;; k" := (bind m (fun x => k))
  (at level 61, m at next level, right associativity).
Notation "m ;;; k" := (bind m (fun _ => k))
  (at level 61, right associativity).

(** Before any code runs, a macro already stands for its literal, and a
    global object is not constructed. *)
Definition image (lits : literals) : store := fun c =>
  match declared c with
  | MacroLiteral => Some (WString.c_str (lits c))
  | GlobalString _ => None
  end.

Definition is_object (c : constant) : bool :=
  match declared c with
  | GlobalString _ => true
  | MacroLiteral => false
  end.

(** [const String NAME = "literal";] runs the constructor on the literal. *)
Definition construct (lits : literals) (c : constant) : M unit :=
  fun st => Ok (tt, update st c (WString.of_cstr (lits c))).

Fixpoint construct_all (lits : literals) (cs : list constant) : M unit :=
  match cs with
  | [] => ret tt
  | c :: cs' => construct lits c ;;; construct_all lits cs'
  end.

(** Static initialisation: the global objects, in the order of the header. *)
Definition static_init (lits : literals) : M unit :=
  construct_all lits (filter is_object all_constants).

Definition startup (lits : literals) : result (unit * store) :=
  static_init lits (image lits).

(** Reading a name. *)
Definition read (c : constant) : M string :=
  fun st =>
    match st c with
    | Some v => Ok (v, st)
    | None => Err (Uninitialized c)
    end.

(** Storing into a name; C++ accepts it only for a modifiable object. *)
Definition assign (c : constant) (v : string) : M unit :=
  fun st => Ok (tt, update st c v).

Definition assignable (d : declaration) : bool :=
  match d with
  | GlobalString is_const => negb is_const
  | MacroLiteral => false
  end.

(** What a consuming module can write about a name. *)
Inductive access : Type :=
  | Read (c : constant)
  | Assign (c : constant) (v : string).

(** The accesses the compiler accepts. *)
Definition accepted (a : access) : bool :=
  match a with
  | Read _ => true
  | Assign c _ => assignable (declared c)
  end.

Definition exec (a : access) : M (option string) :=
  match a with
  | Read c => v <- read c ;; ret (Some v)
  | Assign c v => assign c v ;;; ret None
  end.

(** A consumer: a sequence of accesses; it yields what each one observed. *)
Fixpoint run (prog : list access) : M (list (option string)) :=
  match prog with
  | [] => ret []
  | a :: prog' =>
      o <- exec a ;;
      os <- run prog' ;;
      ret (o :: os)
  end.

(** ** Consumers of the constants *)

(** Modelled from the spec: the command-authorization check of the SMS
    handler, which is not part of [secrets.h]; the specification says it
    compares the caller's phone number against [AdminPhone]. *)
Definition authorized (admin caller : string) : bool :=
  WString.equals caller admin.

(** Modelled from the spec: the access-point bring-up of the network code,
    which is not part of [secrets.h]; the specification says the access point
    advertises [ApSsid] and requires [ApPass]. *)
Record access_point : Type := {
  ssid : string;
  passphrase : string
}.

(** Modelled from the spec: bringing the access point up with a name and a
    password; the call is not part of [secrets.h]. *)
Definition softAP (name pass : string) : access_point :=
  {| ssid := name; passphrase := pass |}.

(** Modelled from the spec: the access point of the device, brought up
    with [ApSsid] and [ApPass]. *)
Definition ap_mode : access_point := softAP AP_SSID AP_PASS.

(** Modelled from the spec: the name an access point advertises. *)
Definition advertised (ap : access_point) : string := ssid ap.

(** Modelled from the spec: an access point requires its password, so it
    admits a station exactly when the password offered is that one. *)
Definition admits (ap : access_point) (offered : string) : bool :=
  String.eqb offered (passphrase ap).

(** ** Character classes and formats *)

(** [isdigit]: '0' .. '9'. *)
Definition isdigit (ch : ascii) : bool :=
  let n := nat_of_ascii ch in ((48 <=? n) && (n <=? 57))%nat.

(** [isspace]: space, and the controls from horizontal tab to carriage
    return. *)
Definition isspace (ch : ascii) : bool :=
  let n := nat_of_ascii ch in ((n =? 32) || ((9 <=? n) && (n <=? 13)))%nat.

(** A phone number in international notation: '+', then digits only. *)
Definition phone_format (s : string) : bool :=
  match s with
  | EmptyString => false
  | String ch rest =>
      Ascii.eqb ch "+"%char && forallb isdigit (list_ascii_of_string rest)
  end.

(** The WPA2 minimum length of a passphrase. *)
Definition WPA2_MIN_PASSPHRASE : nat := 8.

(** A header rebuilt with other credentials, as the comments of
    [secrets.h] ask its user to do. *)
Definition rebuilt_values : constant -> WString.cstring := fun c =>
  match c with
  | AdminPhone => WString.CStr "+4915112345678" eq_refl
  | SecretCommand => WString.CStr "open sesame" eq_refl
  | LocalSsid => WString.CStr "HomeNet" eq_refl
  | LocalPass => WString.CStr EmptyString eq_refl
  | ApSsid => WString.CStr "Relay-AP" eq_refl
  | ApPass => WString.CStr "correct horse" eq_refl
  end.

(** A header rebuilt with a NUL character inside two of its literals, one
    of a [String] object and one of a macro. *)
Definition nul_literals : literals := fun c =>
  match c with
  | AdminPhone => "ab" ++ String WString.NUL "cd"
  | LocalSsid => "H" ++ String WString.NUL "Net"
  | _ => secrets_h c
  end.

(** What an access observes in a header built from the literals [lits]. *)
Definition observation (lits : literals) (a : access) : option string :=
  match a with
  | Read c => Some (WString.c_str (lits c))
  | Assign _ _ => None
  end.

(** ** Facts about C strings *)

Section CStrings.

Import WString.

Lemma c_str_nul_free (s : string) : nul_free s = true -> c_str s = s.
Proof.
  induction s as [|ch rest IH]; simpl; intro H.
  - reflexivity.
  - apply andb_true_iff in H. destruct H as [Hch Hrest].
    apply negb_true_iff in Hch. rewrite Hch.
    now rewrite IH.
Qed.

Lemma c_str_is_nul_free (s : string) : nul_free (c_str s) = true.
Proof.
  induction s as [|ch rest IH]; simpl.
  - reflexivity.
  - destruct (Ascii.eqb ch NUL) eqn:E; simpl.
    + reflexivity.
    + now rewrite E, IH.
Qed.

Lemma c_str_idempotent (s : string) : c_str (c_str s) = c_str s.
Proof. apply c_str_nul_free, c_str_is_nul_free. Qed.

Lemma equals_true_iff (a b : string) : equals a b = true <-> a = b.
Proof.
  unfold equals. split.
  - intro H. apply andb_true_iff in H. now apply String.eqb_eq.
  - intros ->. now rewrite Nat.eqb_refl, String.eqb_refl.
Qed.

Lemma equals_false_iff (a b : string) : equals a b = false <-> a <> b.
Proof.
  rewrite <- equals_true_iff. now destruct (equals a b).
Qed.

End CStrings.

(** ** Facts about the store *)

Lemma update_same (st : store) (c : constant) (v : string) :
  update st c v c = Some v.
Proof. unfold update. now destruct (constant_eq_dec c c). Qed.

Lemma update_other (st : store) (c c' : constant) (v : string) :
  c <> c' -> update st c v c' = st c'.
Proof. unfold update. now destruct (constant_eq_dec c c'). Qed.

(** Start-up never stops with an error, whatever the literals are, and
    leaves under every name the C string of its literal. *)
Lemma startup_ok (lits : literals) :
  exists st,
    startup lits = Ok (tt, st) /\
    forall c, st c = Some (WString.c_str (lits c)).
Proof.
  unfold startup, static_init. simpl.
  unfold bind, construct, ret. eexists. split.
  - reflexivity.
  - intros []; reflexivity.
Qed.

Lemma read_initialized (st : store) (c : constant) (v : string) :
  st c = Some v -> read c st = Ok (v, st).
Proof. unfold read. now intros ->. Qed.

(** A sequence of reads observes the stored values and leaves the store as
    it found it. *)
Lemma run_reads (st : store) (f : constant -> string) :
  (forall c, st c = Some (f c)) ->
  forall cs,
    run (map Read cs) st = Ok (map (fun c => Some (f c)) cs, st).
Proof.
  intros Hst cs. induction cs as [|c cs IH]; simpl.
  - reflexivity.
  - unfold bind at 1. unfold exec, bind at 1.
    rewrite (read_initialized st c (Hst c)). unfold ret at 1.
    unfold bind. rewrite IH. reflexivity.
Qed.

(** None of the six names can be assigned to. *)
Lemma never_assignable (c : constant) : assignable (declared c) = false.
Proof. now destruct c. Qed.

Lemma accepted_is_read (a : access) :
  accepted a = true -> exists c, a = Read c.
Proof.
  destruct a as [c|c v]; simpl.
  - intros _. now exists c.
  - rewrite never_assignable. discriminate.
Qed.

(** A consumer the compiler accepts cannot change the store. *)
Lemma run_accepted_preserves (prog : list access) :
  forallb accepted prog = true ->
  forall st out st', run prog st = Ok (out, st') -> st' = st.
Proof.
  induction prog as [|a prog IH]; simpl; intros Hacc st out st' Hrun.
  - unfold ret in Hrun. now inversion Hrun.
  - apply andb_true_iff in Hacc. destruct Hacc as [Ha Hprog].
    destruct (accepted_is_read a Ha) as [c ->].
    unfold bind, exec, bind, read, ret in Hrun.
    destruct (st c) as [v|]; [|discriminate].
    destruct (run prog st) as [[os st1]|e] eqn:E; [|discriminate].
    inversion Hrun; subst. now apply (IH Hprog st os).
Qed.

(** Before static initialisation a macro can be read and a [String] object
    cannot: the error is real, and start-up is what removes it. *)
Example read_before_startup :
  read LocalSsid (image secrets_h) = Ok ("MyWiFiNetwork", image secrets_h) /\
  read AdminPhone (image secrets_h) = Err (Uninitialized AdminPhone).
Proof. split; reflexivity. Qed.

(** An assignment, were one accepted, would be seen by the next read: the
    store is unchanged because of the declarations, not because stores
    cannot change. *)
Example assign_then_read (st : store) (c : constant) (v : string) :
  run [Assign c v; Read c] st = Ok ([None; Some v], update (st) c v).
Proof.
  simpl. unfold bind, exec, bind, assign, read, ret.
  now rewrite update_same.
Qed.

(** A literal with a NUL inside is cut there, as [strlen] does. *)
Example c_str_stops_at_nul :
  WString.c_str (String "a" (String "b" (String WString.NUL "cd"))) = "ab".
Proof. reflexivity. Qed.

(** ** The properties of the specification *)

(** C1: with [AdminPhone] bound to "+38160123456789", the authorization
    check against the caller "+38160123456789" succeeds, and against every
    caller number different from it the check fails. *)
Theorem admin_phone_authorization :
  authorized ADMIN_PHONE "+38160123456789" = true /\
  forall caller : string,
    caller <> "+38160123456789" -> authorized ADMIN_PHONE caller = false.
Proof.
  split.
  - reflexivity.
  - intros caller Hneq. unfold authorized.
    apply equals_false_iff. exact Hneq.
Qed.

(** The check at a caller that is not the administrator. *)
Lemma admin_phone_authorization_witness :
  "+38160999999999" <> "+38160123456789" /\
  authorized ADMIN_PHONE "+38160999999999" = false.
Proof.
  split.
  - discriminate.
  - apply (proj2 admin_phone_authorization "+38160999999999"). discriminate.
Defined.

(** C2: each of the six configuration values is a string (its type in this
    embedding) and is not empty. *)
Theorem constants_nonempty :
  forall c : constant,
    value c <> EmptyString /\ 0 < String.length (value c).
Proof.
  intros []; (split; [discriminate | vm_compute; lia]).
Qed.

(** C3: no access that would store into one of the six names is accepted,
    and after start-up every sequence of reads by a consumer observes the
    declared value at each read and leaves the store as it was. *)
Theorem constants_immutable :
  (forall (c : constant) (v : string), accepted (Assign c v) = false) /\
  exists st : store,
    startup secrets_h = Ok (tt, st) /\
    forall cs : list constant,
      run (map Read cs) st = Ok (map (fun c => Some (value c)) cs, st).
Proof.
  split.
  - intros c v. apply never_assignable.
  - destruct (startup_ok secrets_h) as [st [Hst Hval]].
    exists st. split; [exact Hst|].
    apply run_reads. intro c. rewrite Hval. now destruct c.
Qed.

(** C4: [AdminPhone] has the phone-number format: its first character is
    '+' and every later character is a decimal digit. *)
Theorem admin_phone_format :
  exists rest : string,
    ADMIN_PHONE = String "+"%char rest /\
    Forall (fun ch => isdigit ch = true) (list_ascii_of_string rest) /\
    phone_format ADMIN_PHONE = true.
Proof.
  eexists. split; [reflexivity|]. split; [|reflexivity].
  apply Forall_forall. apply forallb_forall. reflexivity.
Qed.

(** C5: no character of [SecretCommand] is a whitespace character. *)
Theorem secret_command_no_whitespace :
  Forall (fun ch => isspace ch = false) (list_ascii_of_string SECRET_COMMAND).
Proof.
  repeat (constructor; [reflexivity|]). constructor.
Qed.

(** C6: [ApSsid] is "ESP8266-Access-Point" and [ApPass] is "123456789"; the
    access point advertises exactly that name, and the password it requires is
    exactly that one. *)
Theorem access_point_credentials :
  AP_SSID = "ESP8266-Access-Point" /\
  AP_PASS = "123456789" /\
  advertised ap_mode = "ESP8266-Access-Point" /\
  passphrase ap_mode = "123456789" /\
  forall offered : string,
    admits ap_mode offered = true <-> offered = "123456789".
Proof.
  repeat split; intro H.
  - now apply String.eqb_eq in H.
  - subst offered. reflexivity.
Qed.

(** C7, as amended: for every choice of six string values none of which
    holds a NUL character, start-up of the header rebuilt with those values
    succeeds and reading each name gives back exactly the value written for
    it. *)
Theorem rebuild_read_roundtrip (lits : literals) :
  (forall c : constant, WString.nul_free (lits c) = true) ->
  exists st : store,
    startup lits = Ok (tt, st) /\
    forall c : constant, read c st = Ok (lits c, st).
Proof.
  intro Hfree.
  destruct (startup_ok lits) as [st [Hst Hval]].
  exists st. split; [exact Hst|].
  intro c. apply read_initialized. rewrite Hval.
  f_equal. apply c_str_nul_free, Hfree.
Qed.

(** The round trip at the six values of [rebuilt_values], one of them the
    empty string. *)
Lemma rebuild_read_roundtrip_witness :
  (forall c : constant,
     WString.nul_free (WString.chars (rebuilt_values c)) = true) /\
  exists st : store,
    startup (fun c => WString.chars (rebuilt_values c)) = Ok (tt, st) /\
    read AdminPhone st = Ok ("+4915112345678", st) /\
    read SecretCommand st = Ok ("open sesame", st) /\
    read LocalSsid st = Ok ("HomeNet", st) /\
    read LocalPass st = Ok (EmptyString, st) /\
    read ApSsid st = Ok ("Relay-AP", st) /\
    read ApPass st = Ok ("correct horse", st).
Proof.
  assert (Hfree : forall c : constant,
             WString.nul_free (WString.chars (rebuilt_values c)) = true)
    by (intros []; reflexivity).
  split; [exact Hfree|].
  destruct (rebuild_read_roundtrip
              (fun c => WString.chars (rebuilt_values c)) Hfree)
    as [st [Hst Hread]].
  exists st. split; [exact Hst|].
  repeat split;
    [ apply (Hread AdminPhone) | apply (Hread SecretCommand)
    | apply (Hread LocalSsid) | apply (Hread LocalPass)
    | apply (Hread ApSsid) | apply (Hread ApPass) ].
Defined.

(** C7 as first stated fails: in a header rebuilt with a NUL inside the
    literal of [ADMIN_PHONE] and inside that of [LOCAL_SSID], start-up
    succeeds, the two names read back only what comes before the NUL, and
    so not every name reads back the value written for it. *)
Lemma rebuild_read_roundtrip_counterexample :
  (exists st : store,
     startup nul_literals = Ok (tt, st) /\
     nul_literals AdminPhone = String "a" (String "b" (String WString.NUL "cd")) /\
     read AdminPhone st = Ok ("ab", st) /\
     nul_literals LocalSsid = String "H" (String WString.NUL "Net") /\
     read LocalSsid st = Ok ("H", st)) /\
  ~ (exists st : store,
       startup nul_literals = Ok (tt, st) /\
       forall c : constant, read c st = Ok (nul_literals c, st)).
Proof.
  destruct (startup_ok nul_literals) as [st [Hst Hval]].
  split.
  - exists st. split; [exact Hst|].
    split; [reflexivity|]. split.
    + apply read_initialized. now rewrite Hval.
    + split; [reflexivity|]. apply read_initialized. now rewrite Hval.
  - intros [st' [Hst' Hall]].
    rewrite Hst in Hst'. inversion Hst' as [Heq]. subst st'.
    specialize (Hall AdminPhone).
    rewrite (read_initialized st AdminPhone (Hval AdminPhone)) in Hall.
    inversion Hall.
Qed.

(** C8: initialising the constants cannot fail: start-up ends without an
    error, and afterwards reading any of the six names returns its value
    without an error and without changing the store. *)
Theorem initialization_cannot_fail :
  exists st : store,
    startup secrets_h = Ok (tt, st) /\
    forall c : constant, read c st = Ok (value c, st).
Proof.
  destruct (startup_ok secrets_h) as [st [Hst Hval]].
  exists st. split; [exact Hst|].
  intro c. apply read_initialized. rewrite Hval. now destruct c.
Qed.

(** C9: [AP_PASS] has 9 characters, which is at least the 8 characters WPA2
    requires of a passphrase. *)
Theorem ap_pass_length :
  String.length AP_PASS = 9 /\ WPA2_MIN_PASSPHRASE <= String.length AP_PASS.
Proof.
  split.
  - reflexivity.
  - unfold WPA2_MIN_PASSPHRASE. vm_compute. lia.
Qed.

(** C10: the network the device joins and the one it hosts have different
    names: [LOCAL_SSID] is "MyWiFiNetwork", [AP_SSID] is
    "ESP8266-Access-Point", and the two differ. *)
Theorem station_and_ap_ssid_distinct :
  LOCAL_SSID = "MyWiFiNetwork" /\
  AP_SSID = "ESP8266-Access-Point" /\
  LOCAL_SSID <> AP_SSID.
Proof.
  repeat split. discriminate.
Qed.


(** ** Further properties of the header *)

(** What [strlen] leaves out starts at a NUL of the literal. *)
Lemma c_str_split (s : string) :
  WString.c_str s = s \/
  exists tail : string, s = (WString.c_str s ++ String WString.NUL tail)%string.
Proof.
  induction s as [|ch rest IH]; simpl.
  - now left.
  - destruct (Ascii.eqb ch WString.NUL) eqn:E.
    + right. exists rest. apply Ascii.eqb_eq in E. now subst ch.
    + destruct IH as [IH|[tail IH]].
      * left. now rewrite IH.
      * right. exists tail. simpl. now rewrite <- IH.
Qed.

(** Constructing a list of objects succeeds from any store; it sets the
    listed names and leaves every other name alone. *)
Lemma construct_all_spec (lits : literals) (cs : list constant) :
  forall st0 : store,
    exists st : store,
      construct_all lits cs st0 = Ok (tt, st) /\
      forall c,
        st c = if in_dec constant_eq_dec c cs
               then Some (WString.of_cstr (lits c))
               else st0 c.
Proof.
  induction cs as [|c0 cs IH]; intro st0.
  - exists st0. split; [reflexivity|]. intro c. reflexivity.
  - destruct (IH (update st0 c0 (WString.of_cstr (lits c0)))) as [st [Hrun Hst]].
    exists st. split.
    + simpl. unfold bind, construct. exact Hrun.
    + intro c. rewrite Hst.
      destruct (in_dec constant_eq_dec c cs) as [Hin|Hnin];
        destruct (in_dec constant_eq_dec c (c0 :: cs)) as [Hin'|Hnin'];
        try reflexivity.
      * exfalso. apply Hnin'. now right.
      * destruct Hin' as [->|Hin']; [apply update_same | contradiction].
      * apply update_other. intros ->. apply Hnin'. now left.
Qed.

(** An accepted consumer, run in a store that holds a value under every
    name, observes those values and returns the store it was given. *)
Lemma run_accepted (lits : literals) (st : store) :
  (forall c, st c = Some (WString.c_str (lits c))) ->
  forall prog : list access,
    forallb accepted prog = true ->
    run prog st = Ok (map (observation lits) prog, st).
Proof.
  intros Hst prog. induction prog as [|a prog IH]; simpl; intro Hacc.
  - reflexivity.
  - apply andb_true_iff in Hacc. destruct Hacc as [Ha Hprog].
    destruct (accepted_is_read a Ha) as [c ->].
    unfold bind at 1. unfold exec, bind at 1.
    rewrite (read_initialized st c (Hst c)). unfold ret at 1.
    unfold bind. rewrite (IH Hprog). reflexivity.
Qed.

(** X1: whatever literals the header is built with, a consumer made of
    accepted accesses only runs to the end after start-up, observes at each
    read the C string of the literal, and leaves the store unchanged. *)
Theorem accepted_consumer_observes (lits : literals) (prog : list access) :
  forallb accepted prog = true ->
  exists st : store,
    startup lits = Ok (tt, st) /\
    run prog st = Ok (map (observation lits) prog, st).
Proof.
  intro Hacc. destruct (startup_ok lits) as [st [Hst Hval]].
  exists st. split; [exact Hst|]. now apply run_accepted.
Qed.

(** A consumer that reads the phone number, the access-point password and
    the phone number again. *)
Lemma accepted_consumer_observes_witness :
  exists st : store,
    startup secrets_h = Ok (tt, st) /\
    run [Read AdminPhone; Read ApPass; Read AdminPhone] st
    = Ok ([Some "+38160123456789"; Some "123456789"; Some "+38160123456789"],
          st).
Proof.
  exact (accepted_consumer_observes secrets_h
           [Read AdminPhone; Read ApPass; Read AdminPhone] eq_refl).
Defined.

(** X2: in a header built with any literals, a name reads back exactly the
    literal written for it if and only if that literal holds no NUL
    character. *)
Theorem roundtrip_iff_nul_free (lits : literals) :
  exists st : store,
    startup lits = Ok (tt, st) /\
    forall c : constant,
      read c st = Ok (lits c, st) <-> WString.nul_free (lits c) = true.
Proof.
  destruct (startup_ok lits) as [st [Hst Hval]].
  exists st. split; [exact Hst|].
  intro c. rewrite (read_initialized st c (Hval c)). split.
  - intro H. inversion H as [Heq]. rewrite <- Heq at 1.
    apply c_str_is_nul_free.
  - intro H. now rewrite (c_str_nul_free _ H).
Qed.

(** X3: in a header built with any literals, what a name reads back holds
    no NUL and is either the whole literal or the part of it that comes
    before a NUL. *)
Theorem read_is_literal_up_to_nul (lits : literals) :
  exists st : store,
    startup lits = Ok (tt, st) /\
    forall c : constant,
      exists v : string,
        read c st = Ok (v, st) /\
        WString.nul_free v = true /\
        (v = lits c \/
         exists tail : string,
           lits c = (v ++ String WString.NUL tail)%string).
Proof.
  destruct (startup_ok lits) as [st [Hst Hval]].
  exists st. split; [exact Hst|].
  intro c. exists (WString.c_str (lits c)). split; [|split].
  - now apply read_initialized.
  - apply c_str_is_nul_free.
  - apply c_str_split.
Qed.

(** X4: static initialisation, started from any store, ends without an
    error, sets the two [String] objects to the strings constructed from
    their literals and leaves the four macro names as it found them. *)
Theorem static_init_sets_objects_only (lits : literals) (st0 : store) :
  exists st : store,
    static_init lits st0 = Ok (tt, st) /\
    forall c : constant,
      st c = if is_object c then Some (WString.of_cstr (lits c)) else st0 c.
Proof.
  unfold static_init.
  destruct (construct_all_spec lits (filter is_object all_constants) st0)
    as [st [Hrun Hst]].
  exists st. split; [exact Hrun|].
  intro c. rewrite Hst. now destruct c.
Qed.

(** X5: the order in which the objects are constructed, and constructing
    one more than once, makes no difference: two lists with the same names
    lead, from the same store, to stores that agree on every name. *)
Theorem construct_all_order_independent
    (lits : literals) (cs cs' : list constant) (st0 : store) :
  (forall c, In c cs <-> In c cs') ->
  exists st st' : store,
    construct_all lits cs st0 = Ok (tt, st) /\
    construct_all lits cs' st0 = Ok (tt, st') /\
    forall c : constant, st c = st' c.
Proof.
  intro Hsame.
  destruct (construct_all_spec lits cs st0) as [st [Hrun Hst]].
  destruct (construct_all_spec lits cs' st0) as [st' [Hrun' Hst']].
  exists st, st'. split; [exact Hrun|]. split; [exact Hrun'|].
  intro c. rewrite Hst, Hst'.
  destruct (in_dec constant_eq_dec c cs) as [Hin|Hnin];
    destruct (in_dec constant_eq_dec c cs') as [Hin'|Hnin'];
    try reflexivity.
  - exfalso. apply Hnin'. now apply Hsame.
  - exfalso. apply Hnin. now apply Hsame.
Qed.

(** The header's order against the reverse order with a repetition. *)
Lemma construct_all_order_independent_witness :
  (forall c,
     In c [AdminPhone; SecretCommand] <->
     In c [SecretCommand; AdminPhone; SecretCommand]) /\
  exists st st' : store,
    construct_all secrets_h [AdminPhone; SecretCommand] (image secrets_h)
    = Ok (tt, st) /\
    construct_all secrets_h [SecretCommand; AdminPhone; SecretCommand]
      (image secrets_h)
    = Ok (tt, st') /\
    forall c : constant, st c = st' c.
Proof.
  assert (H : forall c,
             In c [AdminPhone; SecretCommand] <->
             In c [SecretCommand; AdminPhone; SecretCommand])
    by (intro c; simpl; tauto).
  split; [exact H|].
  exact (construct_all_order_independent secrets_h
           [AdminPhone; SecretCommand]
           [SecretCommand; AdminPhone; SecretCommand]
           (image secrets_h) H).
Defined.

(** X6: none of the six literals of the header holds a NUL, so every
    constant has, character for character, the value written in the
    header. *)
Theorem header_literals_not_truncated :
  forall c : constant,
    WString.nul_free (secrets_h c) = true /\ value c = secrets_h c.
Proof.
  intro c. assert (H : WString.nul_free (secrets_h c) = true)
    by (destruct c; reflexivity).
  split; [exact H|].
  transitivity (WString.c_str (secrets_h c)).
  - now destruct c.
  - now apply c_str_nul_free.
Qed.
